(** * GuessWord: the colouring engine and the game/quota controller

    A shallow embedding of [game/utils.py], [game/forms.py],
    [game/models.py] and [game/views.py], with the properties of the
    colouring algorithm and of the two request handlers [start_game] and
    [submit_guess].

    Conventions of the embedding.
    - A Python [str] is a Rocq [string]; a one-character [str] such as
      [guess[i]] is the string [str1 c].  Case mapping, [isalpha],
      [isupper] and [strip] follow Python on the ASCII range, the alphabet
      the game is played on (form pattern [[A-Za-z]{5}], seeded words).
    - A [dict] is a [gmap]; the integers of the colouring engine are [Z];
      the counters and indexes of the tables, which their field types keep
      non-negative, are [nat].
    - A raised exception is the [Raise] branch of [result]; a handler under
      [transaction.atomic] that raises leaves the database as it found it.
    - The database is a record of tables; the clock and the random source
      are inputs of a handler. *)

From Stdlib Require Import ZArith NArith String Ascii List Lia Bool DecimalString.
From stdpp Require Import base gmap strings list fin_maps sorting.

Local Open Scope string_scope.
Local Open Scope Z_scope.
Local Open Scope list_scope.

(** ** Exceptions and the error monad *)

Inductive exn : Type :=
  | IndexError
  | KeyError
  | ValidationError (messages : list string)
  | Http404.

Inductive result (A : Type) : Type :=
  | Ok (a : A)
  | Raise (e : exn).
Arguments Ok {A} a.
Arguments Raise {A} e.

#[global] Instance result_ret : MRet result := λ A a, Ok a.
#[global] Instance result_bind : MBind result :=
  λ A B f m, match m with Ok a => f a | Raise e => Raise e end.

(** ** Python strings on the ASCII range *)

Module Str.

Definition chars (s : string) : list ascii := list_ascii_of_string s.

Definition str1 (c : ascii) : string := String c EmptyString.

Definition code (c : ascii) : N := N_of_ascii c.

Definition is_lower_char (c : ascii) : bool :=
  ((97 <=? code c) && (code c <=? 122))%N.

Definition is_upper_char (c : ascii) : bool :=
  ((65 <=? code c) && (code c <=? 90))%N.

Definition is_alpha_char (c : ascii) : bool :=
  is_lower_char c || is_upper_char c.

(** [str.isspace] on one ASCII character: TAB, LF, VT, FF, CR, the four
    separators FS, GS, RS, US, and the space. *)
Definition is_space_char (c : ascii) : bool :=
  (((9 <=? code c) && (code c <=? 13))
   || ((28 <=? code c) && (code c <=? 32)))%N.

Definition upper_char (c : ascii) : ascii :=
  if is_lower_char c then ascii_of_N (code c - 32) else c.


Fixpoint map_chars (f : ascii → ascii) (s : string) : string :=
  match s with
  | EmptyString => EmptyString
  | String c r => String (f c) (map_chars f r)
  end.

Definition upper : string → string := map_chars upper_char.

Fixpoint all_chars (p : ascii → bool) (s : string) : bool :=
  match s with
  | EmptyString => true
  | String c r => p c && all_chars p r
  end.

Fixpoint any_chars (p : ascii → bool) (s : string) : bool :=
  match s with
  | EmptyString => false
  | String c r => p c || any_chars p r
  end.

Definition is_empty (s : string) : bool :=
  match s with EmptyString => true | _ => false end.

(** [s.isalpha()]: at least one character and all of them letters. *)
Definition isalpha (s : string) : bool :=
  negb (is_empty s) && all_chars is_alpha_char s.

(** [s.isupper()]: at least one cased character and no lowercase one. *)
Definition isupper (s : string) : bool :=
  any_chars is_upper_char s && negb (any_chars is_lower_char s).

Fixpoint lstrip (s : string) : string :=
  match s with
  | EmptyString => EmptyString
  | String c r => if is_space_char c then lstrip r else s
  end.

Fixpoint rstrip (s : string) : string :=
  match s with
  | EmptyString => EmptyString
  | String c r =>
      let r' := rstrip r in
      if is_space_char c && is_empty r' then EmptyString else String c r'
  end.

(** [s.strip()] *)
Definition strip (s : string) : string := rstrip (lstrip s).

Definition len (s : string) : nat := String.length s.

End Str.

(** ** game/utils.py *)

(** [xs[i]], raising [IndexError] out of range. *)
Definition index {A} (xs : list A) (i : nat) : result A :=
  match xs !! i with
  | Some x => Ok x
  | None => Raise IndexError
  end.

(** [d[k]], raising [KeyError] on a missing key. *)
Definition getitem (d : gmap ascii Z) (k : ascii) : result Z :=
  match d !! k with
  | Some v => Ok v
  | None => Raise KeyError
  end.

(** [for i in <indices>: body], threading the loop state. *)
Fixpoint for_each {S} (indices : list nat) (body : nat → S → result S)
    (s : S) : result S :=
  match indices with
  | [] => Ok s
  | i :: rest => s' ← body i s; for_each rest body s'
  end.

Definition range (n : nat) : list nat := seq 0 n.

(** One row of feedback: [(letter, color)] tuples. *)
Abbreviation colors := (list (string * string)).

(** [target_freq[char] = target_freq.get(char, 0) + 1] *)
Definition count_char (target_freq : gmap ascii Z) (char : ascii)
    : gmap ascii Z :=
  <[char := default 0 (target_freq !! char) + 1]> target_freq.

(** [for char in target: ...], from the empty dictionary. *)
Definition build_freq (target : list ascii) : gmap ascii Z :=
  foldl count_char ∅ target.

(** Body of the first loop: mark greens and decrement the frequency. *)
Definition first_pass (guess target : list ascii) (i : nat)
    (st : colors * gmap ascii Z) : result (colors * gmap ascii Z) :=
  let '(result, target_freq) := st in
  gi ← index guess i;
  ti ← index target i;
  if decide (gi = ti) then
    n ← getitem target_freq gi;
    Ok (<[i := (Str.str1 gi, "green")]> result, <[gi := n - 1]> target_freq)
  else Ok (result, target_freq).

(** Body of the second loop: mark oranges and greys. *)
Definition second_pass (guess : list ascii) (i : nat)
    (st : colors * gmap ascii Z) : result (colors * gmap ascii Z) :=
  let '(result, target_freq) := st in
  r ← index result i;
  if String.eqb (snd r) "green" then Ok (result, target_freq)
  else
    letter ← index guess i;
    match target_freq !! letter with
    | Some n =>
        if 0 <? n then
          Ok (<[i := (Str.str1 letter, "orange")]> result,
              <[letter := n - 1]> target_freq)
        else Ok (<[i := (Str.str1 letter, "grey")]> result, target_freq)
    | None => Ok (<[i := (Str.str1 letter, "grey")]> result, target_freq)
    end.

Definition compute_guess_colors (guess target : string) : result colors :=
  let guess := Str.chars (Str.upper guess) in
  let target := Str.chars (Str.upper target) in
  let result := replicate 5 ("", "") in
  let target_freq := build_freq target in
  st ← for_each (range 5) (first_pass guess target) (result, target_freq);
  st ← for_each (range 5) (second_pass guess) st;
  Ok (fst st).

(** ** The two-pass algorithm as the specification words it

    Written from the specification's description of the colouring engine,
    for comparison with [compute_guess_colors]: a frequency count of the
    target's letters, a first pass that claims the exact positions, and a
    second pass, left to right, that hands out the remaining credit. *)

Module Reference.

Inductive class : Type := EXACT | PRESENT | ABSENT.

#[global] Instance class_eq_dec : EqDecision class.
Proof. solve_decision. Defined.

(** The frequency table: the remaining count of every letter. *)
Definition table : Type := ascii → Z.

Definition frequency (target : list ascii) : table :=
  λ c, Z.of_nat (count_occ ascii_dec target c).

Definition decrement (t : table) (c : ascii) : table :=
  λ x, if decide (x = c) then t x - 1 else t x.

(** Pass 1: EXACT where the letters agree, [None] where the position is
    left to pass 2. *)
Fixpoint pass1 (guess target : list ascii) (t : table)
    : list (option class) * table :=
  match guess, target with
  | g :: guess', x :: target' =>
      if decide (g = x) then
        let '(marks, t') := pass1 guess' target' (decrement t g) in
        (Some EXACT :: marks, t')
      else
        let '(marks, t') := pass1 guess' target' t in
        (None :: marks, t')
  | _, _ => ([], t)
  end.

(** Pass 2: the positions not already EXACT, left to right. *)
Fixpoint pass2 (guess : list ascii) (marks : list (option class))
    (t : table) : list (ascii * class) :=
  match guess, marks with
  | g :: guess', Some k :: marks' => (g, k) :: pass2 guess' marks' t
  | g :: guess', None :: marks' =>
      if 0 <? t g then (g, PRESENT) :: pass2 guess' marks' (decrement t g)
      else (g, ABSENT) :: pass2 guess' marks' t
  | _, _ => []
  end.

Definition classify_chars (guess target : list ascii)
    : list (ascii * class) :=
  let '(marks, t) := pass1 guess target (frequency target) in
  pass2 guess marks t.

(** [classify] normalises the case of both inputs first. *)
Definition classify (guess target : string) : list (ascii * class) :=
  classify_chars (Str.chars (Str.upper guess)) (Str.chars (Str.upper target)).

(** How the code spells the three classes. *)
Definition color_of (k : class) : string :=
  match k with
  | EXACT => "green"
  | PRESENT => "orange"
  | ABSENT => "grey"
  end.

Definition render (row : list (ascii * class)) : colors :=
  map (λ p, (Str.str1 (fst p), color_of (snd p))) row.


End Reference.

(** The class the code assigned at position [i] of a row, read back from
    its colour string. *)
Definition class_at (row : colors) (i : nat) : option Reference.class :=
  match row !! i with
  | Some (_, "green") => Some Reference.EXACT
  | Some (_, "orange") => Some Reference.PRESENT
  | Some (_, "grey") => Some Reference.ABSENT
  | _ => None
  end.



(** ** Decimal rendering of numbers inside messages *)

Definition show (n : nat) : string := NilEmpty.string_of_uint (Nat.to_uint n).

(** ** game/forms.py *)

(** The framework's part of [GuessForm.guess = CharField(max_length=5,
    min_length=5)]: the submitted value is stripped of surrounding
    whitespace (the field's default), an empty value is refused as the field
    is required, and the two length validators and the null-character
    validator run on the stripped value, their errors collected. *)
Definition CharField_clean (min_length max_length : nat)
    (data : option string) : result string :=
  let value := match data with Some v => Str.strip v | None => "" end in
  if Str.is_empty value then Raise (ValidationError ["This field is required."])
  else
    let errors :=
      (if (Str.len value <? min_length)%nat then
         ["Ensure this value has at least " +:+ show min_length +:+
          " characters (it has " +:+ show (Str.len value) +:+ ")."]
       else [])
      ++ (if (max_length <? Str.len value)%nat then
            ["Ensure this value has at most " +:+ show max_length +:+
             " characters (it has " +:+ show (Str.len value) +:+ ")."]
          else [])
      ++ (if Str.any_chars (λ c, (Str.code c =? 0)%N) value then
            ["Null characters are not allowed."]
          else []) in
    match errors with
    | [] => Ok value
    | _ => Raise (ValidationError errors)
    end.

(** [GuessForm.clean_guess] *)
Definition clean_guess (cleaned_guess : string) : result string :=
  let guess := Str.upper cleaned_guess in
  if negb (Str.len guess =? 5)%nat then
    Raise (ValidationError ["Guess must be exactly 5 letters."])
  else if negb (Str.isalpha guess) then
    Raise (ValidationError ["Guess must contain only letters."])
  else Ok guess.

(** [GuessForm(request.POST)] followed by [is_valid()]: the cleaned guess,
    or the errors of the field [guess]. *)
Definition GuessForm (POST : gmap string string) : result string :=
  value ← CharField_clean 5 5 (POST !! "guess");
  clean_guess value.

(** ** game/models.py *)

Definition validate_uppercase_5letter (value : string) : result unit :=
  if negb (Str.len value =? 5)%nat then
    Raise (ValidationError ["Must be exactly 5 characters long."])
  else if negb (Str.isupper value) then
    Raise (ValidationError ["Must be uppercase."])
  else if negb (Str.isalpha value) then
    Raise (ValidationError ["Must contain only letters."])
  else Ok ().

Record Word : Type := mkWord {
  word_id : nat;
  text : string
}.

Record Game : Type := mkGame {
  id : nat;
  user : nat;
  target_word : Word;
  started_at : nat;
  finished_at : option nat;
  won : bool
}.

Record Guess : Type := mkGuess {
  game : nat;
  guess_text : string;
  guess_index : nat;
  created_at : nat
}.

(** The tables.  [games] is keyed by primary key, [daily_quotas] by its
    [unique_together] pair (user, date) and holds [words_started_count];
    [guesses] lists the rows in order of creation. *)
Record DB : Type := mkDB {
  words : list Word;
  games : gmap nat Game;
  guesses : list Guess;
  daily_quotas : gmap (nat * nat) nat
}.

Definition with_games (db : DB) (gs : gmap nat Game) : DB :=
  mkDB (words db) gs (guesses db) (daily_quotas db).

Definition with_guesses (db : DB) (gs : list Guess) : DB :=
  mkDB (words db) (games db) gs (daily_quotas db).

Definition with_daily_quotas (db : DB) (qs : gmap (nat * nat) nat) : DB :=
  mkDB (words db) (games db) (guesses db) qs.

(** [game.guesses]: the guesses whose foreign key is this game. *)
Definition guesses_of (db : DB) (game_id : nat) : list Guess :=
  filter (λ g, game g = game_id) (guesses db).

(** [Game.is_finished] *)
Definition is_finished (g : Game) : bool :=
  match finished_at g with Some _ => true | None => false end.

(** [Game.guesses_count] *)
Definition guesses_count (db : DB) (g : Game) : nat :=
  length (guesses_of db (id g)).

(** [Game.can_guess] *)
Definition can_guess (db : DB) (g : Game) : bool :=
  negb (is_finished g) && (guesses_count db g <? 5)%nat.

(** [Guess.clean]: uppercase the text, check the range of the index. *)
Definition Guess_clean (g : Guess) : result Guess :=
  let g := if Str.is_empty (guess_text g) then g
           else mkGuess (game g) (Str.upper (guess_text g)) (guess_index g)
                        (created_at g) in
  if negb (guess_index g =? 0)%nat
     && ((guess_index g <? 1)%nat || (5 <? guess_index g)%nat)
  then Raise (ValidationError ["Index must be between 1 and 5."])
  else Ok g.

Definition errors_of {A} (m : result A) : list string :=
  match m with
  | Raise (ValidationError errors) => errors
  | _ => []
  end.

(** [unique_together = [["game", "index"]]] *)
Definition unique_game_index (db : DB) (g : Guess) : result unit :=
  if bool_decide (Exists (λ g', game g' = game g ∧ guess_index g' = guess_index g)
                         (guesses db))
  then Raise (ValidationError ["Guess with this Game and Index already exists."])
  else Ok ().

(** [full_clean]: the checks of the field [text] (not blank, then its
    validators [validate_uppercase_5letter] and [max_length=5]), then
    [clean], then the uniqueness check, the errors of the three stages
    collected. *)
Definition Guess_full_clean (db : DB) (g : Guess) : result Guess :=
  let field_errors :=
    if Str.is_empty (guess_text g) then ["This field cannot be blank."]
    else
      errors_of (validate_uppercase_5letter (guess_text g))
      ++ (if (5 <? Str.len (guess_text g))%nat then
            ["Ensure this value has at most 5 characters (it has "
             +:+ show (Str.len (guess_text g)) +:+ ")."]
          else []) in
  let cleaned := Guess_clean g in
  let g' := match cleaned with Ok g' => g' | Raise _ => g end in
  let errors :=
    field_errors ++ errors_of cleaned ++ errors_of (unique_game_index db g') in
  match errors with
  | [] => Ok g'
  | _ => Raise (ValidationError errors)
  end.

(** [Guess.save], as called by [Guess.objects.create]. *)
Definition Guess_save (db : DB) (g : Guess) : result DB :=
  g' ← Guess_full_clean db g;
  Ok (with_guesses db (guesses db ++ [g'])).

(** [game.save()] of a row read from the table: an update by primary key. *)
Definition Game_save (db : DB) (g : Game) : DB :=
  with_games db (<[id g := g]> (games db)).

(** The primary key the table hands to a new row. *)
Definition fresh_id (gs : gmap nat Game) : nat :=
  S (max_list (map_to_list gs).*1).

(** [Game.objects.create(user=..., target_word=...)] *)
Definition Game_create (db : DB) (u : nat) (w : Word) (now : nat) : DB * Game :=
  let g := mkGame (fresh_id (games db)) u w now None false in
  (Game_save db g, g).

(** [DailyQuota.objects.get_or_create(user=..., date=...)]: the count of the
    row, created with its default 0 when there is none. *)
Definition get_or_create_quota (db : DB) (u date : nat) : DB * nat :=
  match daily_quotas db !! (u, date) with
  | Some count => (db, count)
  | None => (with_daily_quotas db (<[(u, date) := 0%nat]> (daily_quotas db)), 0%nat)
  end.

(** [quota.save()] *)
Definition quota_save (db : DB) (u date count : nat) : DB :=
  with_daily_quotas db (<[(u, date) := count]> (daily_quotas db)).


(** ** game/views.py *)

Inductive level : Type := ERROR | INFO | SUCCESS.

(** A message queued with [messages.error], [messages.info] or
    [messages.success]. *)
Definition message : Type := level * string.

Record Request : Type := mkRequest {
  request_user : option nat;      (* [None]: not logged in *)
  method : string;
  POST : gmap string string
}.

(** What a handler reads from outside the database: [timezone.localdate()],
    [timezone.now()] and the draw of [random.choice]. *)
Record Env : Type := mkEnv {
  today : nat;
  now : nat;
  random : nat
}.

Record guess_row : Type := mkRow {
  row_text : string;
  row_colors : colors;
  row_index : nat
}.

Record board_context : Type := mkBoard {
  ctx_game : Game;
  guess_data : list guess_row;
  remaining_rows : Z;
  form : bool;                    (* [GuessForm()] or [None] *)
  guesses_remaining : Z
}.

Record home_context : Type := mkHome {
  games_played_today : nat;
  games_remaining : Z;
  active_game : option Game
}.

Inductive response : Type :=
  | Redirect (to : string) (game_id : option nat)
  | RenderHome (context : option home_context)
  | RenderBoard (template : string) (context : board_context).

(** What a handler hands back: the queued messages and the response. *)
Definition outcome : Type := list message * response.

(** [@transaction.atomic]: an exception undoes the writes of the body. *)
Definition atomic {A} (db : DB) (body : result (DB * A)) : DB * result A :=
  match body with
  | Ok (db', a) => (db', Ok a)
  | Raise e => (db, Raise e)
  end.

(** [@login_required]: an anonymous request is sent to the login page. *)
Definition login_required (request : Request) (db : DB)
    (view : nat → DB * result outcome) : DB * result outcome :=
  match request_user request with
  | Some u => view u
  | None => (db, Ok ([], Redirect "login" None))
  end.

(** [Game.objects.filter(user=..., finished_at__isnull=True)] *)
Definition active_games (db : DB) (u : nat) : list Game :=
  filter (λ g, user g = u ∧ finished_at g = None) (map_to_list (games db)).*2.

(** [.first()] under [ordering = ["-started_at"]]: a row with the greatest
    [started_at]; among equal ones the table's choice, here the earliest in
    the table's order. *)
Definition later (a b : Game) : Game :=
  if (started_at a <? started_at b)%nat then b else a.

Definition first (rows : list Game) : option Game :=
  match rows with
  | [] => None
  | g :: rest => Some (foldl later g rest)
  end.

(** [get_object_or_404(Game, id=game_id, user=request.user)] *)
Definition get_object_or_404 (db : DB) (game_id u : nat) : result Game :=
  match games db !! game_id with
  | Some g => if decide (user g = u) then Ok g else Raise Http404
  | None => Raise Http404
  end.

(** [random.choice(words)] *)
Definition random_choice {A} (draw : nat) (xs : list A) : result A :=
  index xs (draw mod length xs)%nat.

(** [game.guesses.order_by("index")] *)
Definition index_le (a b : Guess) : Prop :=
  (guess_index a ≤ guess_index b)%nat.

#[global] Instance index_le_dec : RelDecision index_le.
Proof. intros a b. unfold index_le. apply _. Defined.

Definition order_by_index (rows : list Guess) : list Guess :=
  merge_sort index_le rows.

(** The loop that fills [guess_data]. *)
Fixpoint color_rows (target : string) (rows : list Guess)
    : result (list guess_row) :=
  match rows with
  | [] => Ok []
  | guess :: rest =>
      colors ← compute_guess_colors (guess_text guess) target;
      data ← color_rows target rest;
      Ok (mkRow (guess_text guess) colors (guess_index guess) :: data)
  end.

Definition board (db : DB) (g : Game) : result board_context :=
  guess_data ← color_rows (text (target_word g))
                          (order_by_index (guesses_of db (id g)));
  Ok (mkBoard g guess_data
              (Z.max 0 (5 - Z.of_nat (length guess_data)))
              (can_guess db g)
              (5 - Z.of_nat (guesses_count db g))).

Definition render_board_partial (db : DB) (g : Game) : result response :=
  context ← board db g;
  Ok (RenderBoard "game/_board_partial.html" context).

Definition home (env : Env) (request : Request) (db : DB)
    : DB * result outcome :=
  match request_user request with
  | Some u =>
      let '(db, count) := get_or_create_quota db u (today env) in
      (db, Ok ([], RenderHome
                     (Some (mkHome count (Z.max 0 (3 - Z.of_nat count))
                                   (first (active_games db u))))))
  | None => (db, Ok ([], RenderHome None))
  end.

(** The three ways [start_game] refuses, and its success. *)
Definition QuotaExceeded : outcome :=
  ([(ERROR, "You've reached your daily limit of 3 games. Come back tomorrow!")],
   Redirect "home" None).

Definition GameAlreadyActive (existing : Game) : outcome :=
  ([(INFO, "You have an active game. Finish it before starting a new one.")],
   Redirect "game_detail" (Some (id existing))).

Definition NoWordsAvailable : outcome :=
  ([(ERROR, "No words available. Please contact the administrator.")],
   Redirect "home" None).

Definition GameStarted (g : Game) : outcome :=
  ([(SUCCESS, "New game started! You have 5 guesses.")],
   Redirect "game_detail" (Some (id g))).

Definition start_game (env : Env) (request : Request) (db : DB)
    : DB * result outcome :=
  login_required request db (λ u,
    atomic db (
      if negb (String.eqb (method request) "POST") then
        Ok (db, ([], Redirect "home" None))
      else
        let '(db, count) := get_or_create_quota db u (today env) in
        if (3 <=? count)%nat then Ok (db, QuotaExceeded)
        else
          match first (active_games db u) with
          | Some existing => Ok (db, GameAlreadyActive existing)
          | None =>
              match words db with
              | [] => Ok (db, NoWordsAvailable)
              | _ =>
                  target ← random_choice (random env) (words db);
                  let '(db, g) := Game_create db u target (now env) in
                  let db := quota_save db u (today env) (count + 1)%nat in
                  Ok (db, GameStarted g)
              end
          end)).

Definition game_detail (request : Request) (game_id : nat) (db : DB)
    : DB * result outcome :=
  login_required request db (λ u,
    (db, g ← get_object_or_404 db game_id u;
         context ← board db g;
         Ok ([], RenderBoard "game/board.html" context))).

(** The messages of [submit_guess]. *)
Definition GameFinished : message :=
  (ERROR, "This game is already finished or you've used all your guesses.").

Definition InvalidGuess (errors : list string) : list message :=
  map (λ e, (ERROR, e)) errors.

Definition Congratulations (g : Game) : message :=
  (SUCCESS, "🎉 Congratulations! You guessed it: " +:+ text (target_word g)).

Definition BetterLuck (g : Game) : message :=
  (INFO, "Better luck next time! The word was: " +:+ text (target_word g)).

Definition NotQuite (guesses_left : nat) : message :=
  (INFO, "Not quite! You have " +:+ show guesses_left +:+
         " guess(es) remaining.").

Definition submit_guess (env : Env) (request : Request) (game_id : nat)
    (db : DB) : DB * result outcome :=
  login_required request db (λ u,
    atomic db (
      g ← get_object_or_404 db game_id u;
      if negb (can_guess db g) then
        r ← render_board_partial db g; Ok (db, ([GameFinished], r))
      else if negb (String.eqb (method request) "POST") then
        r ← render_board_partial db g; Ok (db, ([], r))
      else
        match GuessForm (POST request) with
        | Raise (ValidationError errors) =>
            r ← render_board_partial db g; Ok (db, (InvalidGuess errors, r))
        | Raise e => Raise e
        | Ok guess_text =>
            let guess_index := (guesses_count db g + 1)%nat in
            db ← Guess_save db (mkGuess (id g) guess_text guess_index (now env));
            if String.eqb guess_text (text (target_word g)) then
              let g := mkGame (id g) (user g) (target_word g) (started_at g)
                              (Some (now env)) true in
              let db := Game_save db g in
              r ← render_board_partial db g;
              Ok (db, ([Congratulations g], r))
            else if (5 <=? guess_index)%nat then
              let g := mkGame (id g) (user g) (target_word g) (started_at g)
                              (Some (now env)) false in
              let db := Game_save db g in
              r ← render_board_partial db g;
              Ok (db, ([BetterLuck g], r))
            else
              r ← render_board_partial db g;
              Ok (db, ([NotQuite (5 - guess_index)], r))
        end)).

(** ** The requests a player can make, and the states they lead to *)

Inductive operation : Type :=
  | Home
  | StartGame
  | GameDetail (game_id : nat)
  | SubmitGuess (game_id : nat).

Definition handle (env : Env) (request : Request) (o : operation) (db : DB)
    : DB * result outcome :=
  match o with
  | Home => home env request db
  | StartGame => start_game env request db
  | GameDetail game_id => game_detail request game_id db
  | SubmitGuess game_id => submit_guess env request game_id db
  end.

(** [reachable db db']: some sequence of requests, by any users at any
    times, leads from [db] to [db']. *)
Inductive reachable (db : DB) : DB → Prop :=
  | reachable_refl : reachable db db
  | reachable_step db' env request o :
      reachable db db' →
      reachable db (fst (handle env request o db')).

(** The three states of a game. *)
Inductive state : Type := ACTIVE | WON | LOST.

Definition state_of (g : Game) : state :=
  match finished_at g with
  | None => ACTIVE
  | Some _ => if won g then WON else LOST
  end.

(** Today's quota count of a user: 0 while the row does not exist. *)
Definition quota_count (db : DB) (u date : nat) : nat :=
  default 0%nat (daily_quotas db !! (u, date)).

(** ** Well-formed databases

    What the models and the handlers guarantee of the stored rows.
    [rows_ok]: a game sits under its own primary key and its target word
    passed [validate_uppercase_5letter], as did every word of the pool and
    the text of every guess when it was saved; the guesses of a game carry
    the indexes 1, 2, ... in order of creation; the game of a guess exists.
    [wf] adds that a game without completion time has fewer than five
    guesses. *)
Definition valid_text (s : string) : Prop :=
  validate_uppercase_5letter s = Ok ().

Definition rows_ok (db : DB) : Prop :=
  map_Forall (λ k g, id g = k ∧ valid_text (text (target_word g))) (games db)
  ∧ Forall (λ w, valid_text (text w)) (words db)
  ∧ Forall (λ x, valid_text (guess_text x)) (guesses db)
  ∧ Forall (λ x, guess_index <$> guesses_of db (game x)
                 = seq 1 (length (guesses_of db (game x)))) (guesses db)
  ∧ Forall (λ x, is_Some (games db !! game x)) (guesses db).

Definition active_below_five (db : DB) : Prop :=
  map_Forall (λ k g, finished_at g = None →
                     (length (guesses_of db k) < 5)%nat) (games db).

Definition wf (db : DB) : Prop := rows_ok db ∧ active_below_five db.

#[global] Instance exn_eq_dec : EqDecision exn.
Proof. solve_decision. Defined.

#[global] Instance result_eq_dec `{EqDecision A} : EqDecision (result A).
Proof. solve_decision. Defined.

#[global] Instance valid_text_dec s : Decision (valid_text s).
Proof. unfold valid_text. apply _. Defined.

#[global] Instance wf_dec db : Decision (wf db).
Proof. unfold wf, rows_ok, active_below_five. apply _. Defined.

(** The text the form validates: the submitted value without its
    surrounding whitespace, in upper case. *)
Definition normalized (raw : string) : string := Str.upper (Str.strip raw).

(** ** Relating the dictionary of the code to the table of the reference *)

(** A dictionary agrees with a table when a present key holds the table's
    count and a missing key stands for 0. *)
Definition agree (target_freq : gmap ascii Z) (t : Reference.table) : Prop :=
  ∀ c, default 0 (target_freq !! c) = t c.

(** The keys a dictionary must hold for [target_freq[c] -= 1] not to raise. *)
Definition covers (target_freq : gmap ascii Z) (letters : list ascii) : Prop :=
  ∀ c, c ∈ letters → is_Some (target_freq !! c).

(** The [result] list between the two loops: greens placed, the other
    positions still at their initial value. *)
Definition after_first_pass (guess : list ascii)
    (marks : list (option Reference.class)) : colors :=
  zip_with (λ g m, match m with
                   | Some k => (Str.str1 g, Reference.color_of k)
                   | None => ("", "")
                   end) guess marks.


(** The class of position [i] in the row the code computes, if it computes
    one. *)
Definition class_in (guess target : string) (i : nat)
    : option Reference.class :=
  match compute_guess_colors guess target with
  | Ok row => class_at row i
  | Raise _ => None
  end.

(** ** Sample data *)

Module Sample.

Definition apple : Word := mkWord 1 "APPLE".

Definition env : Env := mkEnv 7 100 0.

(** A POST by user [u] carrying [raw] in the field [guess]. *)
Definition post (u : nat) (raw : string) : Request :=
  mkRequest (Some u) "POST" {["guess" := raw]}.

(** A pool of one word and nothing else. *)
Definition pool : DB := mkDB [apple] ∅ [] ∅.

(** User 1 has started game 1. *)
Definition started : DB := (start_game env (post 1 "") pool).1.

(** ... and has guessed wrong four times. *)
Definition four_wrong : DB :=
  foldl (λ db raw, (submit_guess env (post 1 raw) 1 db).1) started
        ["crane"; "BRAVE"; "cloud"; "Delta"].


(** A user who has used up the day's three games. *)
Definition spent : DB := mkDB [apple] ∅ [] {[(1%nat, 7%nat) := 3%nat]}.

End Sample.

(** * Properties *)

(** ** Strings *)

Lemma length_chars s : length (Str.chars s) = String.length s.
Proof. induction s as [|c s IH]; simpl; congruence. Qed.

Lemma length_map_chars f s : String.length (Str.map_chars f s) = String.length s.
Proof. induction s as [|c s IH]; simpl; congruence. Qed.

Lemma length_upper s : String.length (Str.upper s) = String.length s.
Proof. apply length_map_chars. Qed.

Lemma code_inj c : ascii_of_N (Str.code c) = c.
Proof. apply ascii_N_embedding. Qed.





(** ** The colouring engine refines the reference algorithm *)

Lemma index_middle {A} (pre : list A) x post :
  index (pre ++ x :: post) (length pre) = Ok x.
Proof. unfold index. by rewrite list_lookup_middle. Qed.

Lemma insert_middle {A} (pre : list A) x y post :
  <[length pre := y]> (pre ++ x :: post) = pre ++ y :: post.
Proof.
  rewrite insert_app_r_alt; [|lia]. by rewrite Nat.sub_diag.
Qed.

Lemma agree_decrement target_freq t c n :
  agree target_freq t → target_freq !! c = Some n →
  agree (<[c := n - 1]> target_freq) (Reference.decrement t c).
Proof.
  intros Ha Hc x. unfold Reference.decrement.
  destruct (decide (x = c)) as [->|Hne].
  - rewrite lookup_insert_eq. cbn. specialize (Ha c). rewrite Hc in Ha.
    cbn in Ha. lia.
  - rewrite lookup_insert_ne; [apply Ha | congruence].
Qed.

Lemma covers_insert target_freq letters c n :
  covers target_freq letters → covers (<[c := n]> target_freq) letters.
Proof.
  intros Hc x Hx. destruct (decide (c = x)) as [->|Hne].
  - rewrite lookup_insert_eq. eauto.
  - rewrite lookup_insert_ne; auto.
Qed.

Lemma build_freq_from target target_freq t :
  agree target_freq t →
  agree (foldl count_char target_freq target)
        (λ c, t c + Reference.frequency target c).
Proof.
  revert target_freq t.
  induction target as [|x target IH]; intros target_freq t Ha.
  - intros c. cbn. rewrite Ha. unfold Reference.frequency. cbn. lia.
  - cbn [foldl]. intros c.
    rewrite (IH _ (λ c, if decide (c = x) then t c + 1 else t c)).
    + unfold Reference.frequency. cbn [count_occ].
      destruct (ascii_dec x c) as [->|Hne].
      * rewrite decide_True by done. lia.
      * rewrite decide_False by congruence. lia.
    + intros y. unfold count_char. destruct (decide (y = x)) as [->|Hne].
      * rewrite lookup_insert_eq. cbn. rewrite Ha. done.
      * rewrite lookup_insert_ne by congruence. apply Ha.
Qed.

Lemma build_freq_agree target :
  agree (build_freq target) (Reference.frequency target).
Proof.
  intros c. unfold build_freq.
  rewrite (build_freq_from target ∅ (λ _, 0)); [lia|].
  intros y. by rewrite lookup_empty.
Qed.

Lemma build_freq_keys target (target_freq : gmap ascii Z) c :
  c ∈ target ∨ is_Some (target_freq !! c) →
  is_Some (foldl count_char target_freq target !! c).
Proof.
  revert target_freq.
  induction target as [|x target IH]; intros target_freq [Hin|Hs]; cbn [foldl].
  - by apply elem_of_nil in Hin.
  - done.
  - apply IH. apply elem_of_cons in Hin as [->|Hin]; [right|by left].
    unfold count_char. rewrite lookup_insert_eq. eauto.
  - apply IH. right. unfold count_char. destruct (decide (x = c)) as [->|Hne].
    + rewrite lookup_insert_eq. eauto.
    + by rewrite lookup_insert_ne.
Qed.

Lemma build_freq_covers target : covers (build_freq target) target.
Proof. intros c Hc. apply build_freq_keys. by left. Qed.

Lemma pass1_length guess target t :
  length guess = length target →
  length (Reference.pass1 guess target t).1 = length guess.
Proof.
  revert target t.
  induction guess as [|g guess IH]; intros [|x target] t Hlen; try done.
  cbn in Hlen. cbn [Reference.pass1].
  destruct (decide (g = x)).
  - specialize (IH target (Reference.decrement t g) ltac:(lia)).
    destruct (Reference.pass1 guess target _). cbn in *. lia.
  - specialize (IH target t ltac:(lia)).
    destruct (Reference.pass1 guess target _). cbn in *. lia.
Qed.

Lemma pass1_marks guess target t :
  Forall (λ m, m = Some Reference.EXACT ∨ m = None)
         (Reference.pass1 guess target t).1.
Proof.
  revert target t.
  induction guess as [|g guess IH]; intros [|x target] t; try by constructor.
  cbn [Reference.pass1]. destruct (decide (g = x)).
  - specialize (IH target (Reference.decrement t g)).
    destruct (Reference.pass1 guess target _). constructor; auto.
  - specialize (IH target t).
    destruct (Reference.pass1 guess target _). constructor; auto.
Qed.

Lemma for_each_cons {S} i rest (body : nat → S → result S) s :
  for_each (i :: rest) body s = body i s ≫= for_each rest body.
Proof. done. Qed.

Lemma first_pass_green guess target i g n (result : colors)
    (target_freq : gmap ascii Z) :
  index guess i = Ok g → index target i = Ok g →
  target_freq !! g = Some n →
  first_pass guess target i (result, target_freq)
  = Ok (<[i := (Str.str1 g, "green")]> result, <[g := n - 1]> target_freq).
Proof.
  intros Hg Hx Hn. unfold first_pass, getitem. rewrite Hg, Hx.
  cbn [mbind result_bind]. rewrite decide_True by done. by rewrite Hn.
Qed.

Lemma first_pass_skip guess target i g x (result : colors)
    (target_freq : gmap ascii Z) :
  index guess i = Ok g → index target i = Ok x → g ≠ x →
  first_pass guess target i (result, target_freq) = Ok (result, target_freq).
Proof.
  intros Hg Hx Hne. unfold first_pass. rewrite Hg, Hx.
  cbn [mbind result_bind]. by rewrite decide_False.
Qed.

(** The first loop, started at any position: the part of [result] already
    visited is left alone and the rest receives the marks of pass 1. *)
Lemma first_loop guess target :
  ∀ guess0 target0 (done : colors) target_freq t,
    length guess = length target →
    length guess0 = length target0 →
    length done = length guess0 →
    agree target_freq t →
    covers target_freq target →
    ∃ target_freq',
      for_each (seq (length guess0) (length guess))
               (first_pass (guess0 ++ guess) (target0 ++ target))
               (done ++ replicate (length guess) ("", ""), target_freq)
      = Ok (done ++ after_first_pass guess (Reference.pass1 guess target t).1,
            target_freq')
      ∧ agree target_freq' (Reference.pass1 guess target t).2.
Proof.
  revert target.
  induction guess as [|g guess IH];
    intros [|x target] guess0 target0 done target_freq t Hlen Hlen0 Hdone Ha Hc;
    try (cbn in Hlen; lia).
  { exists target_freq. done. }
  cbn in Hlen.
  cbn [length seq replicate Reference.pass1]. rewrite for_each_cons.
  destruct (decide (g = x)) as [->|Hne].
  - destruct (Hc x) as [n Hn]; [by left|].
    rewrite (first_pass_green _ _ _ x n);
      [|apply index_middle|rewrite Hlen0; apply index_middle|done].
    cbn [mbind result_bind].
    rewrite <-Hdone, insert_middle.
    destruct (IH target (guess0 ++ [x]) (target0 ++ [x])
                 (done ++ [(Str.str1 x, "green")])
                 (<[x := n - 1]> target_freq) (Reference.decrement t x))
      as (target_freq' & Hrun & Ha').
    + lia.
    + rewrite !length_app. cbn. lia.
    + rewrite !length_app. cbn. lia.
    + by apply agree_decrement.
    + apply covers_insert. intros c Hin. apply Hc. by right.
    + exists target_freq'.
      rewrite length_app, Nat.add_1_r, <-!app_assoc in Hrun. cbn in Hrun.
      rewrite Hdone, Hrun.
      destruct (Reference.pass1 guess target _) as [marks t'].
      by cbn.
  - rewrite (first_pass_skip _ _ _ g x);
      [|apply index_middle|rewrite Hlen0; apply index_middle|done].
    cbn [mbind result_bind].
    destruct (IH target (guess0 ++ [g]) (target0 ++ [x])
                 (done ++ [("", "")]) target_freq t)
      as (target_freq' & Hrun & Ha').
    + lia.
    + rewrite !length_app. cbn. lia.
    + rewrite !length_app. cbn. lia.
    + done.
    + intros c Hin. apply Hc. by right.
    + exists target_freq'.
      rewrite length_app, Nat.add_1_r, <-!app_assoc in Hrun. cbn in Hrun.
      rewrite Hrun.
      destruct (Reference.pass1 guess target _) as [marks t'].
      by cbn.
Qed.

Lemma second_pass_green guess i (letter : string) (result : colors)
    (target_freq : gmap ascii Z) :
  index result i = Ok (letter, "green") →
  second_pass guess i (result, target_freq) = Ok (result, target_freq).
Proof. intros Hr. unfold second_pass. by rewrite Hr. Qed.

Lemma second_pass_orange guess i g n (result : colors)
    (target_freq : gmap ascii Z) :
  index result i = Ok ("", "") → index guess i = Ok g →
  target_freq !! g = Some n → 0 < n →
  second_pass guess i (result, target_freq)
  = Ok (<[i := (Str.str1 g, "orange")]> result, <[g := n - 1]> target_freq).
Proof.
  intros Hr Hg Hn Hpos. unfold second_pass. rewrite Hr, Hg.
  cbn [mbind result_bind snd]. rewrite Hn.
  destruct (Z.ltb_spec 0 n); [done | lia].
Qed.

Lemma second_pass_grey guess i g (result : colors)
    (target_freq : gmap ascii Z) :
  index result i = Ok ("", "") → index guess i = Ok g →
  default 0 (target_freq !! g) ≤ 0 →
  second_pass guess i (result, target_freq)
  = Ok (<[i := (Str.str1 g, "grey")]> result, target_freq).
Proof.
  intros Hr Hg Hn. unfold second_pass. rewrite Hr, Hg.
  cbn [mbind result_bind snd]. destruct (target_freq !! g) as [n|]; [|done].
  cbn in Hn. destruct (Z.ltb_spec 0 n); [lia | done].
Qed.

(** The second loop, started at any position: the positions already visited
    are left alone and the rest becomes the row of pass 2. *)
Lemma second_loop guess :
  ∀ marks guess0 (done : colors) target_freq t,
    length marks = length guess →
    Forall (λ m, m = Some Reference.EXACT ∨ m = None) marks →
    length done = length guess0 →
    agree target_freq t →
    ∃ target_freq',
      for_each (seq (length guess0) (length guess))
               (second_pass (guess0 ++ guess))
               (done ++ after_first_pass guess marks, target_freq)
      = Ok (done ++ Reference.render (Reference.pass2 guess marks t),
            target_freq').
Proof.
  induction guess as [|g guess IH];
    intros [|m marks] guess0 done target_freq t Hlen Hm Hdone Ha;
    try (cbn in Hlen; lia).
  { exists target_freq. done. }
  cbn in Hlen. apply Forall_cons in Hm as [Hm Hmarks].
  cbn [length seq after_first_pass zip_with]. rewrite for_each_cons.
  assert (Hstep : ∀ (row : string * string) target_freq1 t1,
             agree target_freq1 t1 →
             ∃ target_freq',
               for_each (seq (S (length guess0)) (length guess))
                        (second_pass (guess0 ++ g :: guess))
                        (done ++ row :: after_first_pass guess marks,
                         target_freq1)
               = Ok (done ++ row :: Reference.render
                                      (Reference.pass2 guess marks t1),
                     target_freq')).
  { intros row target_freq1 t1 Ha1.
    destruct (IH marks (guess0 ++ [g]) (done ++ [row]) target_freq1 t1)
      as (target_freq' & Hrun); [lia|done| |done|].
    { rewrite !length_app. cbn. lia. }
    exists target_freq'.
    rewrite length_app, Nat.add_1_r, <-!app_assoc in Hrun. exact Hrun. }
  destruct Hm as [->| ->].
  - rewrite (second_pass_green _ _ (Str.str1 g));
      [|rewrite <-Hdone; apply index_middle].
    cbn [mbind result_bind]. apply (Hstep _ _ t Ha).
  - cbn [Reference.pass2]. destruct (Z.ltb_spec 0 (t g)) as [Hpos|Hnpos].
    + destruct (target_freq !! g) as [n|] eqn:Hn.
      2:{ specialize (Ha g). rewrite Hn in Ha. cbn in Ha. lia. }
      assert (0 < n) by (specialize (Ha g); rewrite Hn in Ha; cbn in Ha; lia).
      rewrite (second_pass_orange _ _ g n);
        [|rewrite <-Hdone; apply index_middle|apply index_middle|done|done].
      cbn [mbind result_bind]. rewrite <-Hdone, insert_middle, Hdone.
      apply (Hstep _ _ (Reference.decrement t g)).
      by apply agree_decrement.
    + rewrite (second_pass_grey _ _ g);
        [|rewrite <-Hdone; apply index_middle|apply index_middle
         |rewrite Ha; lia].
      cbn [mbind result_bind]. rewrite <-Hdone, insert_middle, Hdone.
      apply (Hstep _ _ t Ha).
Qed.

(** On two texts of five characters the code returns the row of the
    reference algorithm, its classes spelled as colours. *)
Lemma compute_guess_colors_classify guess target :
  String.length guess = 5%nat → String.length target = 5%nat →
  compute_guess_colors guess target
  = Ok (Reference.render (Reference.classify guess target)).
Proof.
  intros Hg Ht. unfold compute_guess_colors, Reference.classify,
    Reference.classify_chars, range.
  set (g := Str.chars (Str.upper guess)).
  set (x := Str.chars (Str.upper target)).
  assert (Hlg : length g = 5%nat)
    by (unfold g; by rewrite length_chars, length_upper).
  assert (Hlx : length x = 5%nat)
    by (unfold x; by rewrite length_chars, length_upper).
  destruct (first_loop g x [] [] [] (build_freq x) (Reference.frequency x))
    as (freq1 & Hrun1 & Ha1);
    [lia|done|done|apply build_freq_agree|apply build_freq_covers|].
  cbn [length app] in Hrun1. rewrite Hlg in Hrun1. rewrite Hrun1.
  cbn [mbind result_bind].
  destruct (second_loop g (Reference.pass1 g x (Reference.frequency x)).1 []
              [] freq1 (Reference.pass1 g x (Reference.frequency x)).2)
    as (freq2 & Hrun2);
    [rewrite pass1_length; lia|apply pass1_marks|done|done|].
  cbn [length app] in Hrun2. rewrite Hlg in Hrun2. rewrite Hrun2.
  cbn [mbind result_bind fst].
  by destruct (Reference.pass1 g x (Reference.frequency x)).
Qed.

(** ** Counting the credit handed out *)








Lemma pass2_letters guess marks t :
  length marks = length guess →
  map fst (Reference.pass2 guess marks t) = guess.
Proof.
  revert marks t.
  induction guess as [|g guess IH]; intros [|m marks] t Hlen;
    try (cbn in Hlen; lia); [done|].
  cbn in Hlen. cbn [Reference.pass2].
  destruct m as [k|]; [|destruct (0 <? t g)];
    cbn [map fst]; f_equal; apply IH; lia.
Qed.

Lemma classify_chars_letters guess target :
  length guess = length target →
  map fst (Reference.classify_chars guess target) = guess.
Proof.
  intros Hlen. unfold Reference.classify_chars.
  pose proof (pass1_length guess target (Reference.frequency target) Hlen).
  destruct (Reference.pass1 guess target _) as [marks t'].
  by apply pass2_letters.
Qed.


(** C1: on two five-letter alphabetic texts, [compute_guess_colors] returns
    the row of the reference two-pass algorithm run on the uppercased texts
    (a frequency count of the target; pass 1 marks EXACT where the letters
    agree and decrements; pass 2 goes left to right over the other
    positions, PRESENT with a decrement while the letter has credit left,
    ABSENT otherwise), EXACT, PRESENT, ABSENT spelled green, orange, grey;
    the row has five entries, whose letters are those of the uppercased
    guess in order. *)
Theorem compute_guess_colors_two_pass guess target :
  String.length guess = 5%nat → Str.isalpha guess = true →
  String.length target = 5%nat → Str.isalpha target = true →
  compute_guess_colors guess target
  = Ok (Reference.render (Reference.classify guess target))
  ∧ length (Reference.classify guess target) = 5%nat
  ∧ map fst (Reference.classify guess target) = Str.chars (Str.upper guess).
Proof.
  intros Hg _ Ht _.
  assert (Hlen : length (Str.chars (Str.upper guess))
                 = length (Str.chars (Str.upper target)))
    by (by rewrite !length_chars, !length_upper, Hg, Ht).
  pose proof (classify_chars_letters _ _ Hlen) as Hl.
  split; [by apply compute_guess_colors_classify|].
  split; [|exact Hl].
  unfold Reference.classify.
  rewrite <-(length_map fst), Hl, length_chars, length_upper. exact Hg.
Qed.

Lemma compute_guess_colors_two_pass_witness :
  compute_guess_colors "crane" "Apple"
  = Ok (Reference.render (Reference.classify "crane" "Apple"))
  ∧ length (Reference.classify "crane" "Apple") = 5%nat
  ∧ map fst (Reference.classify "crane" "Apple")
    = Str.chars (Str.upper "crane").
Proof.
  apply (compute_guess_colors_two_pass "crane" "Apple"); reflexivity.
Defined.




(** C4, as the code has it: "POPUP" against "APPLE" has position 2 EXACT;
    "EERIE" against "LEMON" has position 0 ABSENT and position 1 EXACT, the
    target holding its only 'E' at position 1. *)
Theorem duplicate_letter_examples :
  class_in "POPUP" "APPLE" 2 = Some Reference.EXACT
  ∧ class_in "EERIE" "LEMON" 0 = Some Reference.ABSENT
  ∧ class_in "EERIE" "LEMON" 1 = Some Reference.EXACT.
Proof. by vm_compute. Qed.

(** C4 as stated fails: position 0 of "EERIE" against "LEMON" is not
    PRESENT and position 1 is not ABSENT. *)
Lemma eerie_lemon_not_as_stated :
  ¬ (class_in "POPUP" "APPLE" 2 = Some Reference.EXACT
     ∧ class_in "EERIE" "LEMON" 0 = Some Reference.PRESENT
     ∧ class_in "EERIE" "LEMON" 1 = Some Reference.ABSENT).
Proof. vm_compute. intros (_ & H & _). discriminate H. Qed.

(** The leftmost of several misplaced copies takes the credit: against
    "MONEY" the first 'E' of "EERIE" is PRESENT and the later ones ABSENT. *)
Lemma leftmost_duplicate_claims_first :
  class_in "EERIE" "MONEY" 0 = Some Reference.PRESENT
  ∧ class_in "EERIE" "MONEY" 1 = Some Reference.ABSENT
  ∧ class_in "EERIE" "MONEY" 4 = Some Reference.ABSENT.
Proof. by vm_compute. Qed.



(** ** The guess form *)

Ltac by_cases_on_char c :=
  revert c; apply Ascii.ascii_ind; repeat (intros []); reflexivity.

Lemma alpha_upper_char c :
  Str.is_alpha_char (Str.upper_char c) = Str.is_alpha_char c.
Proof. by_cases_on_char c. Qed.

Lemma upper_char_not_lower c : Str.is_lower_char (Str.upper_char c) = false.
Proof. by_cases_on_char c. Qed.

Lemma alpha_upper_char_cased c :
  Str.is_upper_char (Str.upper_char c) = Str.is_alpha_char c.
Proof. by_cases_on_char c. Qed.


Lemma alpha_not_null c :
  Str.is_alpha_char c && (Str.code c =? 0)%N = false.
Proof. by_cases_on_char c. Qed.

Lemma all_alpha_upper s :
  Str.all_chars Str.is_alpha_char (Str.upper s)
  = Str.all_chars Str.is_alpha_char s.
Proof.
  induction s as [|c s IH]; [done|].
  cbn. fold (Str.upper s). by rewrite alpha_upper_char, IH.
Qed.

Lemma is_empty_upper s : Str.is_empty (Str.upper s) = Str.is_empty s.
Proof. by destruct s. Qed.

Lemma isalpha_upper s : Str.isalpha (Str.upper s) = Str.isalpha s.
Proof. unfold Str.isalpha. by rewrite is_empty_upper, all_alpha_upper. Qed.

Lemma all_alpha_no_null s :
  Str.all_chars Str.is_alpha_char s = true →
  Str.any_chars (λ c, (Str.code c =? 0)%N) s = false.
Proof.
  induction s as [|c s IH]; [done|]. cbn.
  intros [Hc Hs]%andb_true_iff. rewrite (IH Hs), orb_false_r.
  pose proof (alpha_not_null c) as H. by rewrite Hc in H.
Qed.



Lemma isalpha_all s :
  Str.isalpha s = true → Str.all_chars Str.is_alpha_char s = true.
Proof. unfold Str.isalpha. by intros [_ ?]%andb_true_iff. Qed.

Lemma upper_no_lower s :
  Str.any_chars Str.is_lower_char (Str.upper s) = false.
Proof.
  induction s as [|c s IH]; [done|].
  cbn. fold (Str.upper s). by rewrite upper_char_not_lower, IH.
Qed.

Lemma upper_fixed s :
  Str.any_chars Str.is_lower_char s = false → Str.upper s = s.
Proof.
  induction s as [|c s IH]; [done|]. cbn.
  intros [Hc Hs]%orb_false_iff. fold (Str.upper s). rewrite (IH Hs).
  unfold Str.upper_char. by rewrite Hc.
Qed.

Lemma isupper_upper s :
  Str.isalpha s = true → Str.isupper (Str.upper s) = true.
Proof.
  intros Hs. unfold Str.isupper. rewrite upper_no_lower, andb_true_r.
  destruct s as [|c s]; [done|].
  apply isalpha_all in Hs as [Hc _]%andb_true_iff.
  cbn. by rewrite alpha_upper_char_cased, Hc.
Qed.

(** What the form hands over passes the validator of the models. *)
Lemma valid_text_upper s :
  String.length s = 5%nat → Str.isalpha s = true → valid_text (Str.upper s).
Proof.
  intros Hlen Hs. unfold valid_text, validate_uppercase_5letter, Str.len.
  by rewrite length_upper, Hlen, isupper_upper, isalpha_upper, Hs.
Qed.

Lemma valid_text_inv s :
  valid_text s →
  String.length s = 5%nat ∧ Str.isalpha s = true ∧ Str.upper s = s.
Proof.
  unfold valid_text, validate_uppercase_5letter, Str.len.
  destruct (Nat.eqb_spec (String.length s) 5); [|done]. cbn.
  destruct (Str.isupper s) eqn:Hu; [|done]. cbn.
  destruct (Str.isalpha s) eqn:Ha; [|done]. intros _.
  repeat split; [done|]. apply upper_fixed.
  unfold Str.isupper in Hu. apply andb_true_iff in Hu as [_ Hl].
  by apply negb_true_iff.
Qed.

Lemma GuessForm_ok POST raw :
  POST !! "guess" = Some raw →
  String.length (normalized raw) = 5%nat →
  Str.isalpha (normalized raw) = true →
  GuessForm POST = Ok (normalized raw).
Proof.
  unfold normalized. intros HP Hlen Ha.
  rewrite length_upper in Hlen. rewrite isalpha_upper in Ha.
  unfold GuessForm, CharField_clean, Str.len. rewrite HP.
  destruct (Str.strip raw) as [|c s] eqn:Hv; [done|].
  cbn [Str.is_empty]. rewrite Hlen. cbn [Nat.ltb Nat.leb].
  rewrite all_alpha_no_null by by apply isalpha_all.
  cbn [app mbind result_bind]. unfold clean_guess, Str.len.
  by rewrite length_upper, Hlen, isalpha_upper, Ha.
Qed.



(** The form never raises anything but its validation errors. *)
Lemma GuessForm_cases POST :
  (∃ text, GuessForm POST = Ok text)
  ∨ (∃ errors, GuessForm POST = Raise (ValidationError errors)).
Proof.
  unfold GuessForm, CharField_clean, clean_guess.
  destruct (Str.is_empty _); [right; by eexists|].
  destruct (_ ++ _ ++ _); [|right; by eexists].
  cbn [mbind result_bind].
  destruct (negb _); [right; by eexists|].
  destruct (negb _); [right; by eexists|]. left. by eexists.
Qed.

(** ** Well-formed databases: what they give *)

Lemma wf_rows db : wf db → rows_ok db.
Proof. by intros [? _]. Qed.

Lemma wf_id db k g : rows_ok db → games db !! k = Some g → id g = k.
Proof. intros (Hg & _) Hk. by destruct (Hg k g Hk). Qed.

Lemma wf_target db k g :
  rows_ok db → games db !! k = Some g → valid_text (text (target_word g)).
Proof. intros (Hg & _) Hk. by destruct (Hg k g Hk). Qed.

Lemma wf_guess_text db :
  rows_ok db → Forall (λ x, valid_text (guess_text x)) (guesses db).
Proof. by intros (_ & _ & Hx & _). Qed.

Lemma wf_index db k :
  rows_ok db →
  guess_index <$> guesses_of db k = seq 1 (length (guesses_of db k)).
Proof.
  intros (_ & _ & _ & Hi & _).
  destruct (guesses_of db k) as [|x rest] eqn:Hk; [done|].
  assert (Hx : x ∈ guesses_of db k) by (rewrite Hk; by left).
  apply list_elem_of_filter in Hx as [Hgame Hin].
  rewrite Forall_forall in Hi. specialize (Hi x Hin).
  by rewrite Hgame, Hk in Hi.
Qed.

(** The guesses of a key under which no game is stored: none. *)
Lemma guesses_of_no_game db k :
  rows_ok db → games db !! k = None → guesses_of db k = [].
Proof.
  intros (_ & _ & _ & _ & Hfk) Hk.
  destruct (guesses_of db k) as [|x rest] eqn:Hx; [done|].
  assert (Hin : x ∈ guesses_of db k) by (rewrite Hx; by left).
  apply list_elem_of_filter in Hin as [Hgame Hin].
  rewrite Forall_forall in Hfk. destruct (Hfk x Hin) as [g Hg].
  congruence.
Qed.

(** An active game of a well-formed database can be guessed at. *)
Lemma wf_can_guess db k g :
  wf db → games db !! k = Some g → finished_at g = None →
  can_guess db g = true.
Proof.
  intros [Hrows Hb] Hk Hfin. unfold can_guess, is_finished, guesses_count.
  rewrite Hfin, (wf_id db k g Hrows Hk). cbn [negb andb].
  apply Nat.ltb_lt. by apply (Hb k g).
Qed.

(** No guess of the game carries the next index yet. *)
Lemma next_index_free db k :
  rows_ok db →
  ¬ Exists (λ x, game x = k ∧ guess_index x = (length (guesses_of db k) + 1)%nat)
           (guesses db).
Proof.
  intros Hwf [x [Hin [Hgame Hidx]]]%Exists_exists.
  assert (Hx : x ∈ guesses_of db k) by (by apply list_elem_of_filter).
  assert (Hi : guess_index x ∈ guess_index <$> guesses_of db k)
    by (by apply list_elem_of_fmap_2).
  rewrite (wf_index db k Hwf), Hidx in Hi.
  apply list_elem_of_In, in_seq in Hi. lia.
Qed.

(** ** Rendering the board *)

Lemma color_rows_ok target rows :
  valid_text target →
  Forall (λ x, valid_text (guess_text x)) rows →
  ∃ data, color_rows target rows = Ok data.
Proof.
  intros [Ht _]%valid_text_inv. induction 1 as [|x rows Hx _ [data IH]].
  - by eexists.
  - apply valid_text_inv in Hx as [Hx _]. cbn [color_rows].
    rewrite compute_guess_colors_classify by done.
    cbn [mbind result_bind]. rewrite IH. by eexists.
Qed.

Lemma render_board_partial_ok db g :
  valid_text (text (target_word g)) →
  Forall (λ x, valid_text (guess_text x)) (guesses db) →
  ∃ r, render_board_partial db g = Ok r.
Proof.
  intros Ht Hx. unfold render_board_partial, board.
  destruct (color_rows_ok (text (target_word g))
              (order_by_index (guesses_of db (id g))) Ht) as [data Hd].
  { unfold order_by_index. rewrite merge_sort_Permutation.
    unfold guesses_of. rewrite Forall_forall in Hx |- *.
    intros x [_ Hin]%list_elem_of_filter. by apply Hx. }
  rewrite Hd. by eexists.
Qed.

(** ** Saving a guess *)

Lemma Guess_save_ok db x :
  valid_text (guess_text x) →
  (1 ≤ guess_index x ≤ 5)%nat →
  ¬ Exists (λ x', game x' = game x ∧ guess_index x' = guess_index x)
           (guesses db) →
  Guess_save db x = Ok (with_guesses db (guesses db ++ [x])).
Proof.
  intros Hv Hi Hu. pose proof (valid_text_inv _ Hv) as (Hlen & _ & Hup).
  destruct x as [gm tx ix ct]. cbn [game guess_text guess_index] in *.
  unfold Guess_save, Guess_full_clean, Guess_clean, unique_game_index.
  cbn [game guess_text guess_index created_at].
  rewrite Hv, Hup. unfold Str.len. rewrite Hlen.
  change (5 <? 5)%nat with false.
  destruct tx as [|c tx]; [done|]. cbn [Str.is_empty errors_of app].
  cbn [game guess_text guess_index created_at].
  destruct (Nat.eqb_spec ix 0); [lia|].
  destruct (Nat.ltb_spec ix 1); [lia|].
  destruct (Nat.ltb_spec 5 ix); [lia|].
  cbn [negb orb andb errors_of app game guess_index].
  by rewrite bool_decide_eq_false_2.
Qed.

Lemma errors_of_validate s :
  errors_of (validate_uppercase_5letter s) = [] → valid_text s.
Proof.
  unfold valid_text, validate_uppercase_5letter.
  by repeat destruct (negb _).
Qed.

(** A guess is saved only as a new last row, with a valid text, under the
    game and the index it was created with. *)
Lemma Guess_save_inv db x db' :
  Guess_save db x = Ok db' →
  ∃ x', db' = with_guesses db (guesses db ++ [x'])
        ∧ game x' = game x ∧ guess_index x' = guess_index x
        ∧ valid_text (guess_text x').
Proof.
  unfold Guess_save, Guess_full_clean.
  destruct (Str.is_empty (guess_text x)); [done|].
  destruct (errors_of (validate_uppercase_5letter (guess_text x))) eqn:Hv;
    [|done].
  apply errors_of_validate in Hv.
  pose proof (valid_text_inv _ Hv) as (Hlen & _ & Hup).
  destruct (5 <? Str.len (guess_text x))%nat; [done|].
  unfold Guess_clean.
  destruct x as [gm tx ix ct]. cbn [game guess_text guess_index created_at] in *.
  rewrite Hup. destruct tx as [|c tx]; [done|]. cbn [Str.is_empty].
  cbn [game guess_text guess_index created_at].
  destruct (negb _ && _); [done|]. cbn [errors_of app].
  destruct (errors_of _); [|done]. cbn [mbind result_bind].
  intros [= <-]. by eexists.
Qed.

(** ** The effect of the handlers on the database *)

Lemma guesses_of_append db x k :
  guesses_of (with_guesses db (guesses db ++ [x])) k
  = guesses_of db k ++ (if decide (game x = k) then [x] else []).
Proof.
  unfold guesses_of. cbn [guesses with_guesses]. by rewrite filter_app.
Qed.

Lemma rows_ok_append_guess db x :
  rows_ok db →
  valid_text (guess_text x) →
  guess_index x = (length (guesses_of db (game x)) + 1)%nat →
  is_Some (games db !! game x) →
  rows_ok (with_guesses db (guesses db ++ [x])).
Proof.
  intros Hrows Hv Hi Hfk. pose proof Hrows as (Hg & Hw & Hx & _ & Hfks).
  split; [exact Hg|]. split; [exact Hw|]. cbn [guesses games with_guesses].
  split; [|split].
  - apply Forall_app. split; [exact Hx|]. by constructor.
  - apply Forall_forall. intros y _. rewrite guesses_of_append.
    rewrite fmap_app, length_app, (wf_index db (game y) Hrows).
    destruct (decide (game x = game y)) as [Heq|Hne].
    + cbn [fmap list_fmap length]. rewrite Hi, Heq, seq_app. cbn [seq].
      do 2 f_equal. lia.
    + cbn [fmap list_fmap length]. by rewrite app_nil_r, Nat.add_0_r.
  - apply Forall_app. split; [exact Hfks|]. by constructor.
Qed.

Lemma rows_ok_with_daily_quotas db qs :
  rows_ok db → rows_ok (with_daily_quotas db qs).
Proof. done. Qed.

Lemma rows_ok_Game_save db g :
  rows_ok db → valid_text (text (target_word g)) → rows_ok (Game_save db g).
Proof.
  intros (Hg & Hw & Hx & Hi & Hfk) Hv.
  split; [|split; [done|split; [done|split; [done|]]]];
    cbn [Game_save games guesses with_games].
  - by apply map_Forall_insert_2.
  - eapply Forall_impl; [exact Hfk|]. intros x [g' Hx'].
    destruct (decide (id g = game x)) as [->|Hne].
    + rewrite lookup_insert_eq. eauto.
    + rewrite lookup_insert_ne by done. eauto.
Qed.

Lemma get_or_create_quota_tables db u date :
  words (get_or_create_quota db u date).1 = words db
  ∧ games (get_or_create_quota db u date).1 = games db
  ∧ guesses (get_or_create_quota db u date).1 = guesses db.
Proof.
  unfold get_or_create_quota. by destruct (daily_quotas db !! (u, date)).
Qed.

Lemma wf_get_or_create_quota db u date :
  wf db → wf (get_or_create_quota db u date).1.
Proof.
  intros Hwf. unfold get_or_create_quota.
  by destruct (daily_quotas db !! (u, date)).
Qed.

Lemma fresh_id_fresh (gs : gmap nat Game) : gs !! fresh_id gs = None.
Proof.
  destruct (gs !! fresh_id gs) as [g|] eqn:Hk; [|done].
  apply elem_of_map_to_list in Hk.
  assert (Hin : fresh_id gs ∈ (map_to_list gs).*1)
    by (apply list_elem_of_fmap; by exists (fresh_id gs, g)).
  apply max_list_elem_of_le in Hin. unfold fresh_id in Hin at 1. lia.
Qed.

Lemma random_choice_elem {A} draw (xs : list A) x :
  random_choice draw xs = Ok x → x ∈ xs.
Proof.
  unfold random_choice, index.
  destruct (xs !! _) as [y|] eqn:Hy; [|done].
  intros [= <-]. by eapply list_elem_of_lookup_2.
Qed.

Lemma foldl_later_elem g rest : foldl later g rest ∈ g :: rest.
Proof.
  revert g. induction rest as [|h rest IH]; intros g; [by left|].
  cbn [foldl]. specialize (IH (later g h)).
  apply elem_of_cons in IH as [->|Hin].
  - unfold later. destruct (_ <? _)%nat; [right; by left | by left].
  - right. by right.
Qed.

Lemma first_elem rows g : first rows = Some g → g ∈ rows.
Proof.
  destruct rows as [|h rest]; [done|]. intros [= <-]. apply foldl_later_elem.
Qed.

Lemma first_None rows : first rows = None → rows = [].
Proof. by destruct rows. Qed.

Lemma active_games_elem db u g :
  g ∈ active_games db u ↔
  (∃ k, games db !! k = Some g) ∧ user g = u ∧ finished_at g = None.
Proof.
  unfold active_games. rewrite list_elem_of_filter, list_elem_of_fmap.
  split.
  - intros [[Hu Hf] [[k g'] [-> Hin]]]. apply elem_of_map_to_list in Hin.
    split; [by exists k | done].
  - intros [[k Hk] [Hu Hf]]. split; [done|].
    exists (k, g). split; [done|]. by apply elem_of_map_to_list.
Qed.

(** [start_game] leaves the database alone, or creates today's quota row,
    or creates that row if need be, a game under a fresh key for a word of
    the pool, and counts it. *)
Lemma start_game_effect env request db :
  (start_game env request db).1 = db
  ∨ (∃ u, (start_game env request db).1
          = (get_or_create_quota db u (today env)).1)
  ∨ (∃ u count target,
        target ∈ words db
        ∧ (start_game env request db).1
          = quota_save
              (Game_create (get_or_create_quota db u (today env)).1 u target
                           (now env)).1
              u (today env) count).
Proof.
  unfold start_game, login_required, atomic.
  destruct (request_user request) as [u|]; [|by left].
  destruct (negb _); [by left|].
  destruct (get_or_create_quota db u (today env)) as [dbq count] eqn:Hq.
  destruct (3 <=? count)%nat.
  { right; left. exists u. by rewrite Hq. }
  assert (Hw : words dbq = words db).
  { unfold get_or_create_quota in Hq.
    destruct (_ !! _); by injection Hq as <- _. }
  destruct (first (active_games dbq u)).
  { right; left. exists u. by rewrite Hq. }
  destruct (words dbq) as [|w ws] eqn:Hws.
  { right; left. exists u. by rewrite Hq. }
  destruct (random_choice (random env) (w :: ws)) as [target|e] eqn:Hr;
    [|by left].
  cbn [mbind result_bind].
  destruct (Game_create dbq u target (now env)) as [dbg g] eqn:Hc.
  right; right. exists u, (count + 1)%nat, target. split.
  - rewrite <-Hw. by eapply random_choice_elem.
  - rewrite Hq. cbn [fst]. by rewrite Hc.
Qed.

(** [submit_guess] leaves the database alone, or saves one guess for a game
    of the requesting user that could still be guessed at, and then may
    save that game as finished. *)
Lemma submit_guess_effect env request game_id db :
  (submit_guess env request game_id db).1 = db
  ∨ ∃ g text dbx,
      games db !! game_id = Some g
      ∧ request_user request = Some (user g)
      ∧ can_guess db g = true
      ∧ Guess_save db (mkGuess (id g) text (guesses_count db g + 1) (now env))
        = Ok dbx
      ∧ (((5 <=? guesses_count db g + 1)%nat = false
          ∧ (submit_guess env request game_id db).1 = dbx)
         ∨ ∃ w, (submit_guess env request game_id db).1
                = Game_save dbx (mkGame (id g) (user g) (target_word g)
                                        (started_at g) (Some (now env)) w)).
Proof.
  unfold submit_guess, login_required, atomic, get_object_or_404.
  destruct (request_user request) as [u|]; [|by left].
  destruct (games db !! game_id) as [g|] eqn:Hg; [|by left].
  destruct (decide (user g = u)) as [<-|]; [|by left].
  cbn [mbind result_bind].
  destruct (can_guess db g) eqn:Hcan; cbn [negb].
  2:{ destruct (render_board_partial db g); by left. }
  destruct (negb _).
  { destruct (render_board_partial db g); by left. }
  destruct (GuessForm (POST request)) as [text|e].
  2:{ destruct e; try by left. destruct (render_board_partial db g); by left. }
  destruct (Guess_save db _) as [dbx|e] eqn:Hsave; [|by left].
  cbn [mbind result_bind].
  destruct (String.eqb text _); [|destruct (5 <=? _)%nat eqn:Hfive].
  - destruct (render_board_partial _ _); cbn [fst]; [|by left].
    right. exists g, text, dbx. repeat split; try done. right. by eexists.
  - destruct (render_board_partial _ _); cbn [fst]; [|by left].
    right. exists g, text, dbx. repeat split; try done. right. by eexists.
  - destruct (render_board_partial _ _); cbn [fst]; [|by left].
    right. exists g, text, dbx. repeat split; try done. by left.
Qed.

(** ** Well-formedness is kept by every request *)


Lemma game_detail_db request game_id db :
  (game_detail request game_id db).1 = db.
Proof.
  unfold game_detail, login_required. by destruct (request_user request).
Qed.

Lemma home_db env request db :
  (home env request db).1 = db
  ∨ ∃ u, (home env request db).1 = (get_or_create_quota db u (today env)).1.
Proof.
  unfold home. destruct (request_user request) as [u|]; [|by left].
  right. exists u. by destruct (get_or_create_quota db u (today env)).
Qed.

Lemma handle_rows_ok env request o db :
  rows_ok db → rows_ok (handle env request o db).1.
Proof.
  intros Hrows. destruct o as [| |game_id|game_id]; cbn [handle].
  - destruct (home_db env request db) as [->|[u ->]]; [done|].
    unfold get_or_create_quota.
    by destruct (daily_quotas db !! (u, today env)).
  - assert (Hq : ∀ u, rows_ok (get_or_create_quota db u (today env)).1).
    { intros u. unfold get_or_create_quota.
      by destruct (daily_quotas db !! (u, today env)). }
    destruct (start_game_effect env request db)
      as [->|[[u ->]|(u & count & target & Hin & ->)]]; [done|done|].
    apply rows_ok_with_daily_quotas. cbn [Game_create fst].
    apply rows_ok_Game_save; [done|].
    destruct Hrows as (_ & Hw & _). rewrite Forall_forall in Hw. by apply Hw.
  - by rewrite game_detail_db.
  - destruct (submit_guess_effect env request game_id db)
      as [->|(g & guess & dbx & Hg & _ & _ & Hsave & Hdb)]; [done|].
    apply Guess_save_inv in Hsave as (x & -> & Hgame & Hidx & Hv).
    cbn [game guess_index] in Hgame, Hidx.
    pose proof (wf_id db game_id g Hrows Hg) as Hid.
    assert (Hx : rows_ok (with_guesses db (guesses db ++ [x]))).
    { apply rows_ok_append_guess; [done..| |].
      - by rewrite Hidx, Hgame.
      - rewrite Hgame, Hid. eauto. }
    destruct Hdb as [[_ ->]|[w ->]]; [done|].
    apply rows_ok_Game_save; [done|]. cbn [target_word].
    by eapply wf_target.
Qed.

Lemma handle_active_below_five env request o db :
  wf db → active_below_five (handle env request o db).1.
Proof.
  intros [Hrows Hb]. destruct o as [| |game_id|game_id]; cbn [handle].
  - destruct (home_db env request db) as [->|[u ->]]; [done|].
    unfold active_below_five, guesses_of.
    by destruct (get_or_create_quota_tables db u (today env)) as (_ & -> & ->).
  - destruct (start_game_effect env request db)
      as [->|[[u ->]|(u & count & target & Hin & ->)]]; [done| |];
      unfold active_below_five, guesses_of;
      destruct (get_or_create_quota_tables db u (today env)) as (_ & Hg & Hx).
    + by rewrite Hg, Hx.
    + cbn [Game_create Game_save quota_save fst games guesses with_games
           with_daily_quotas id]. rewrite Hg, Hx.
      apply map_Forall_insert_2; [|exact Hb]. intros _.
      fold (guesses_of db (fresh_id (games db))).
      rewrite guesses_of_no_game; [cbn; lia|done|apply fresh_id_fresh].
  - by rewrite game_detail_db.
  - destruct (submit_guess_effect env request game_id db)
      as [->|(g & guess & dbx & Hg & _ & Hcan & Hsave & Hdb)]; [done|].
    apply Guess_save_inv in Hsave as (x & -> & Hgame & _ & _).
    cbn [game] in Hgame. pose proof (wf_id db game_id g Hrows Hg) as Hid.
    rewrite Hid in Hgame.
    assert (Hothers : ∀ k g', games db !! k = Some g' → k ≠ game_id →
               finished_at g' = None →
               (length (guesses_of (with_guesses db (guesses db ++ [x])) k)
                < 5)%nat).
    { intros k g' Hk Hne Hfin. rewrite guesses_of_append.
      rewrite decide_False, app_nil_r by congruence. by apply (Hb k g'). }
    destruct Hdb as [[Hfive ->]|[w ->]]; unfold active_below_five.
    + cbn [games with_guesses]. intros k g' Hk Hfin.
      destruct (decide (k = game_id)) as [->|Hne]; [|by eapply Hothers].
      rewrite guesses_of_append, decide_True, length_app by done.
      apply Nat.leb_gt in Hfive. unfold guesses_count in Hfive.
      rewrite Hid in Hfive. cbn [length]. lia.
    + cbn [Game_save games with_games id]. rewrite Hid.
      intros k g' Hk Hfin.
      apply lookup_insert_Some in Hk as [[<- <-]|[Hne Hk]]; [done|].
      by apply (Hothers k g').
Qed.

Lemma handle_wf env request o db : wf db → wf (handle env request o db).1.
Proof.
  intros Hwf. split;
    [apply handle_rows_ok; by apply wf_rows
    | by apply handle_active_below_five].
Qed.

Lemma reachable_wf db db' : wf db → reachable db db' → wf db'.
Proof. intros Hwf. induction 1; [done | by apply handle_wf]. Qed.

(** A database holding only a pool of validated words is well formed, and
    so is every database the players' requests make of it. *)
Lemma wf_initial pool :
  Forall (λ w, valid_text (text w)) pool → wf (mkDB pool ∅ [] ∅).
Proof.
  intros Hpool. split; [|apply map_Forall_empty].
  split; [apply map_Forall_empty|]. split; [exact Hpool|].
  by repeat split.
Qed.

Lemma wf_played pool db :
  Forall (λ w, valid_text (text w)) pool →
  reachable (mkDB pool ∅ [] ∅) db → wf db.
Proof. intros Hpool. apply reachable_wf. by apply wf_initial. Qed.

(** ** A finished game is left alone *)



(** ** start_game *)

(** C5: when today's quota row of the user counts 3 or more, a POST to
    [start_game] answers QuotaExceeded (the error message and the redirect
    to the home page) and the database is the one it found: no Game row is
    created and the count is unchanged. *)
Theorem start_game_quota_exceeded env request db u count :
  request_user request = Some u →
  method request = "POST" →
  daily_quotas db !! (u, today env) = Some count →
  (3 ≤ count)%nat →
  start_game env request db = (db, Ok QuotaExceeded)
  ∧ games (start_game env request db).1 = games db
  ∧ quota_count (start_game env request db).1 u (today env) = count.
Proof.
  intros Hu Hm Hq Hc.
  assert (Hrun : start_game env request db = (db, Ok QuotaExceeded)).
  { unfold start_game, login_required, atomic, get_or_create_quota.
    rewrite Hu, Hm, Hq. change ("POST" =? "POST")%string with true.
    cbn [negb].
    by destruct (Nat.leb_spec 3 count); [|lia]. }
  rewrite Hrun. repeat split. unfold quota_count. cbn [fst]. by rewrite Hq.
Qed.

Lemma start_game_quota_exceeded_witness :
  start_game Sample.env (Sample.post 1 "") Sample.spent
  = (Sample.spent, Ok QuotaExceeded)
  ∧ games (start_game Sample.env (Sample.post 1 "") Sample.spent).1
    = games Sample.spent
  ∧ quota_count (start_game Sample.env (Sample.post 1 "") Sample.spent).1
                1 (today Sample.env) = 3%nat.
Proof.
  apply (start_game_quota_exceeded Sample.env (Sample.post 1 "") Sample.spent
           1 3).
  - reflexivity.
  - reflexivity.
  - by vm_compute.
  - lia.
Defined.

(** C6: when today's count of the user is below 3 and the user has a game
    with no completion time, a POST to [start_game] answers
    GameAlreadyActive: it redirects to the board of a stored game of that
    user that is still active, and it leaves the games, the guesses and
    every quota count as they were. *)
Theorem start_game_already_active env request db u k g :
  wf db →
  request_user request = Some u →
  method request = "POST" →
  (quota_count db u (today env) < 3)%nat →
  games db !! k = Some g → user g = u → finished_at g = None →
  ∃ existing,
    (start_game env request db).2 = Ok (GameAlreadyActive existing)
    ∧ games db !! id existing = Some existing
    ∧ user existing = u ∧ state_of existing = ACTIVE
    ∧ games (start_game env request db).1 = games db
    ∧ guesses (start_game env request db).1 = guesses db
    ∧ ∀ u' date, quota_count (start_game env request db).1 u' date
                 = quota_count db u' date.
Proof.
  intros Hwf Hu Hm Hq Hk Hg Hfin.
  unfold start_game, login_required, atomic. rewrite Hu, Hm.
  change ("POST" =? "POST")%string with true. cbn [negb].
  assert (Hqc : (get_or_create_quota db u (today env)).2
                = quota_count db u (today env)).
  { unfold get_or_create_quota, quota_count.
    by destruct (daily_quotas db !! (u, today env)). }
  assert (Hqs : ∀ u' date,
             quota_count (get_or_create_quota db u (today env)).1 u' date
             = quota_count db u' date).
  { intros u' date. unfold get_or_create_quota, quota_count.
    destruct (daily_quotas db !! (u, today env)) eqn:Hrow; [done|].
    cbn [fst daily_quotas with_daily_quotas].
    destruct (decide ((u, today env) = (u', date))) as [<-|Hne].
    - by rewrite lookup_insert_eq, Hrow.
    - by rewrite lookup_insert_ne. }
  destruct (get_or_create_quota_tables db u (today env)) as (_ & Hgs & Hxs).
  destruct (get_or_create_quota db u (today env)) as [dbq count].
  cbn [fst snd] in *. subst count.
  destruct (Nat.leb_spec 3 (quota_count db u (today env))); [lia|].
  destruct (first (active_games dbq u)) as [existing|] eqn:Hfirst.
  - apply first_elem, active_games_elem in Hfirst
      as ([k' Hk'] & Hue & Hfe).
    rewrite Hgs in Hk'. exists existing. cbn [fst snd].
    rewrite (wf_id db k' existing (wf_rows db Hwf) Hk').
    unfold state_of. rewrite Hfe. by repeat split.
  - apply first_None in Hfirst.
    assert (Hin : g ∈ active_games dbq u).
    { apply active_games_elem. rewrite Hgs. split; [by exists k | done]. }
    rewrite Hfirst in Hin. by apply elem_of_nil in Hin.
Qed.

Lemma start_game_already_active_witness :
  ∃ existing,
    (start_game Sample.env (Sample.post 1 "") Sample.started).2
    = Ok (GameAlreadyActive existing)
    ∧ games Sample.started !! id existing = Some existing
    ∧ user existing = 1%nat ∧ state_of existing = ACTIVE
    ∧ games (start_game Sample.env (Sample.post 1 "") Sample.started).1
      = games Sample.started
    ∧ guesses (start_game Sample.env (Sample.post 1 "") Sample.started).1
      = guesses Sample.started
    ∧ ∀ u' date,
        quota_count (start_game Sample.env (Sample.post 1 "")
                                Sample.started).1 u' date
        = quota_count Sample.started u' date.
Proof.
  apply (start_game_already_active Sample.env (Sample.post 1 "")
           Sample.started 1 1 (mkGame 1 1 Sample.apple 100 None false)).
  - apply (bool_decide_unpack _). by vm_compute.
  - reflexivity.
  - reflexivity.
  - vm_compute. lia.
  - by vm_compute.
  - reflexivity.
  - reflexivity.
Defined.

(** ** submit_guess *)

Lemma state_of_active g : state_of g = ACTIVE ↔ finished_at g = None.
Proof. unfold state_of. destruct (finished_at g), (won g); by split. Qed.



(** A guess whose stripped, uppercased text is five letters is saved under
    the next index, and the game is then saved as won, saved as lost, or
    left as it is. *)
Lemma submit_guess_accepts env request game_id db g raw :
  rows_ok db →
  request_user request = Some (user g) →
  method request = "POST" →
  POST request !! "guess" = Some raw →
  games db !! game_id = Some g →
  can_guess db g = true →
  String.length (normalized raw) = 5%nat →
  Str.isalpha (normalized raw) = true →
  let n := guesses_count db g in
  let dbx :=
    with_guesses db
      (guesses db ++ [mkGuess game_id (normalized raw) (n + 1) (now env)]) in
  let finished w :=
    mkGame (id g) (user g) (target_word g) (started_at g) (Some (now env)) w in
  ∃ r,
    submit_guess env request game_id db
    = if String.eqb (normalized raw) (text (target_word g)) then
        (Game_save dbx (finished true),
         Ok ([Congratulations (finished true)], r))
      else if (5 <=? n + 1)%nat then
        (Game_save dbx (finished false),
         Ok ([BetterLuck (finished false)], r))
      else (dbx, Ok ([NotQuite (5 - (n + 1))], r)).
Proof.
  intros Hrows Hu Hm HP Hg Hcan Hlen Ha n dbx finished.
  pose proof (wf_id db game_id g Hrows Hg) as Hid.
  assert (Hv : valid_text (normalized raw)).
  { unfold normalized in *. rewrite length_upper in Hlen.
    rewrite isalpha_upper in Ha. by apply valid_text_upper. }
  assert (Hn : (n < 5)%nat).
  { unfold can_guess in Hcan. apply andb_true_iff in Hcan as [_ Hlt].
    by apply Nat.ltb_lt in Hlt. }
  assert (Hsave : Guess_save db (mkGuess (id g) (normalized raw) (n + 1)
                                         (now env)) = Ok dbx).
  { rewrite Guess_save_ok; cbn [game guess_text guess_index].
    - by rewrite Hid.
    - done.
    - lia.
    - unfold n, guesses_count. rewrite Hid.
      by apply next_index_free. }
  assert (Hrender : ∀ g', target_word g' = target_word g →
             ∃ r, render_board_partial dbx g' = Ok r
                  ∧ ∀ gs, render_board_partial (with_games dbx gs) g' = Ok r).
  { intros g' Ht.
    destruct (render_board_partial_ok dbx g') as [r Hr].
    - rewrite Ht. by eapply wf_target.
    - unfold dbx. cbn [guesses with_guesses]. apply Forall_app.
      split; [by apply wf_guess_text | by constructor].
    - exists r. split; [exact Hr|]. intros gs. exact Hr. }
  unfold submit_guess, login_required, atomic, get_object_or_404.
  rewrite Hu, Hg, decide_True by done. cbn [mbind result_bind].
  rewrite Hcan, Hm. change ("POST" =? "POST")%string with true. cbn [negb].
  rewrite (GuessForm_ok _ raw) by done. fold n. rewrite Hsave.
  cbn [mbind result_bind].
  destruct (String.eqb (normalized raw) (text (target_word g)));
    [|destruct (5 <=? n + 1)%nat].
  - destruct (Hrender (finished true) eq_refl) as (r & _ & Hr). exists r.
    unfold Game_save. by rewrite Hr.
  - destruct (Hrender (finished false) eq_refl) as (r & _ & Hr). exists r.
    unfold Game_save. by rewrite Hr.
  - destruct (Hrender g eq_refl) as (r & Hr & _). exists r. by rewrite Hr.
Qed.





(** A correct fifth guess wins, a wrong fifth guess loses. *)
Lemma fifth_guess_decides :
  (state_of <$> games (submit_guess Sample.env (Sample.post 1 "apple") 1
                                    Sample.four_wrong).1 !! 1%nat)
  = Some WON
  ∧ (state_of <$> games (submit_guess Sample.env (Sample.post 1 "eagle") 1
                                      Sample.four_wrong).1 !! 1%nat)
    = Some LOST
  ∧ (state_of <$> games Sample.four_wrong !! 1%nat) = Some ACTIVE.
Proof. by vm_compute. Qed.







(** C10: the submitted text is stripped of leading and trailing whitespace
    before it is validated: whenever what remains is five letters, the form
    yields their uppercase, which is saved as the next guess, and the
    answer carries no error message, whatever the length of the text as
    submitted. *)
Theorem submit_guess_strips_whitespace env request game_id db g raw w :
  wf db →
  request_user request = Some (user g) →
  method request = "POST" →
  POST request !! "guess" = Some raw →
  games db !! game_id = Some g →
  state_of g = ACTIVE →
  Str.strip raw = w →
  String.length w = 5%nat → Str.isalpha w = true →
  GuessForm (POST request) = Ok (Str.upper w)
  ∧ guesses (submit_guess env request game_id db).1
    = guesses db
      ++ [mkGuess game_id (Str.upper w) (guesses_count db g + 1) (now env)]
  ∧ ∃ msgs r, (submit_guess env request game_id db).2 = Ok (msgs, r)
              ∧ Forall (λ m, m.1 ≠ ERROR) msgs.
Proof.
  intros Hwf Hu Hm HP Hg Hs Hstrip Hlen Ha.
  assert (Hnorm : normalized raw = Str.upper w)
    by (unfold normalized; by rewrite Hstrip).
  assert (Hcan : can_guess db g = true)
    by (eapply wf_can_guess; [done..|by apply state_of_active]).
  assert (Hl : String.length (normalized raw) = 5%nat)
    by (by rewrite Hnorm, length_upper).
  assert (Hal : Str.isalpha (normalized raw) = true)
    by (by rewrite Hnorm, isalpha_upper).
  split; [rewrite <-Hnorm; by apply GuessForm_ok|].
  destruct (submit_guess_accepts env request game_id db g raw)
    as [r Hrun]; [by apply wf_rows|done..|].
  rewrite Hnorm in Hrun. rewrite Hrun.
  destruct (String.eqb _ _); [|destruct (5 <=? _)%nat];
    cbn [fst snd Game_save guesses with_games with_guesses];
    (split; [done|]); eexists _, _; (split; [done|]);
    by repeat constructor.
Qed.

Lemma submit_guess_strips_whitespace_witness :
  GuessForm (POST (Sample.post 1 "  hello ")) = Ok "HELLO"
  ∧ guesses (submit_guess Sample.env (Sample.post 1 "  hello ") 1
                          Sample.started).1
    = guesses Sample.started ++ [mkGuess 1 "HELLO" 1 100]
  ∧ ∃ msgs r, (submit_guess Sample.env (Sample.post 1 "  hello ") 1
                            Sample.started).2 = Ok (msgs, r)
              ∧ Forall (λ m, m.1 ≠ ERROR) msgs.
Proof.
  apply (submit_guess_strips_whitespace Sample.env (Sample.post 1 "  hello ")
           1 Sample.started (mkGame 1 1 Sample.apple 100 None false)
           "  hello " "hello").
  - apply (bool_decide_unpack _). by vm_compute.
  - reflexivity.
  - reflexivity.
  - reflexivity.
  - by vm_compute.
  - reflexivity.
  - reflexivity.
  - reflexivity.
  - reflexivity.
Defined.
